(** * Applesauce front end: the recording session and the command gateway

  A shallow embedding of [src/src/lib/tauri.js] (the command helpers and the
  [Recorder] component that follows them in the same file) and of the
  [App] component of [src/src/App.jsx].

  Platform objects (MediaRecorder, FileReader, timers, animation frames) are
  modelled by the part of their behaviour the code relies on; the platform
  callbacks (interval tick, animation frame, data-available) are actions of
  the environment. *)

From Stdlib Require Import NArith ZArith List String Ascii Bool Lia.
Import ListNotations.
Open Scope Z_scope.
Open Scope string_scope.

(* ------------------------------------------------------------------ *)
(** ** Remote command gateway ([tauriInvoke] and the exported helpers) *)

Module Gateway.

(** A JS argument object: field names bound to string values. *)
Definition args := list (string * string).

(** The function [getInvoke] hands back: the browser stub that throws,
    or the [invoke] of [@tauri-apps/api/core]. *)
Inductive invoker := InvokeStub | InvokeCore.

(** Observable interactions with the outside world. *)
Inductive effect :=
| ImportCore                     (* await import("@tauri-apps/api/core") *)
| Remote (cmd : string) (a : args). (* invoke(cmd, args) over the bridge *)

(** The rejection reasons of a call. *)
Inductive error :=
| TransportUnavailable (msg : string)  (* the [Error] thrown by the stub *)
| RemoteFailure (msg : string).         (* whatever the backend throws *)

Definition not_available_msg : string :=
  "Tauri API not available in the web preview. Run `npm run tauri dev` and use the desktop window.".

(** The backend, as seen through [invoke]: a reply or a failure. *)
Definition backend := string -> args -> (string + string).

(** [getInvoke]: the module-level [_cachedInvoke] is threaded explicitly. *)
Definition getInvoke (isTauri : bool) (cached : option invoker)
  : invoker * option invoker * list effect :=
  if negb isTauri then (InvokeStub, cached, [])
  else match cached with
       | Some inv => (inv, cached, [])
       | None => (InvokeCore, Some InvokeCore, [ImportCore])
       end.

Definition call (be : backend) (inv : invoker) (cmd : string) (a : args)
  : (string + error) * list effect :=
  match inv with
  | InvokeStub => (inr (TransportUnavailable not_available_msg), [])
  | InvokeCore =>
      (match be cmd a with
       | inl v => inl v
       | inr e => inr (RemoteFailure e)
       end, [Remote cmd a])
  end.

(** [tauriInvoke(cmd, args)]: result, new cache, effects in order. *)
Definition tauriInvoke (isTauri : bool) (cached : option invoker)
           (be : backend) (cmd : string) (a : args)
  : (string + error) * option invoker * list effect :=
  let '(inv, cached', eff1) := getInvoke isTauri cached in
  let '(r, eff2) := call be inv cmd a in
  (r, cached', app eff1 eff2).

(** The exported command helpers, with their arguments. *)
Inductive helper :=
| startRecording | pauseRecording | resumeRecording | stopRecording
| transcribeLatest (sessionId model : string)
| importAudioFile (path : string)
| importYoutubeAudio (url : string)
| importPdfFile (path : string)
| openStorageDir | clearStorageDir
| saveApiKey (value : string)
| readApiKey
| setPromptPreset (value : string)
| getPromptPreset
| openQuizlet.

Definition helper_command (h : helper) : string * args :=
  match h with
  | startRecording => ("start_recording", [])
  | pauseRecording => ("pause_recording", [])
  | resumeRecording => ("resume_recording", [])
  | stopRecording => ("stop_recording", [])
  | transcribeLatest sid m =>
      ("transcribe_latest", [("sessionId", sid); ("model", m)])
  | importAudioFile p => ("import_audio_file", [("path", p)])
  | importYoutubeAudio u => ("import_youtube_audio", [("url", u)])
  | importPdfFile p => ("import_pdf_file", [("path", p)])
  | openStorageDir => ("open_storage_dir", [])
  | clearStorageDir => ("clear_storage_dir", [])
  | saveApiKey v => ("save_api_key", [("value", v)])
  | readApiKey => ("read_api_key", [])
  | setPromptPreset v => ("set_prompt_preset", [("value", v)])
  | getPromptPreset => ("get_prompt_preset", [])
  | openQuizlet => ("open_quizlet", [])
  end.

Definition run_helper (isTauri : bool) (cached : option invoker)
           (be : backend) (h : helper) :=
  let '(cmd, a) := helper_command h in tauriInvoke isTauri cached be cmd a.

End Gateway.

(* ------------------------------------------------------------------ *)
(** ** Pure helpers of the [Recorder] component *)

Module Audio.

Definition byte_Z (b : Byte.byte) : Z := Z.of_N (Byte.to_N b).

(** The body of the meter [loop]: [peak] is the largest [|data[i] - 128|]. *)
Fixpoint peak_from (data : list Byte.byte) (peak : Z) : Z :=
  match data with
  | [] => peak
  | d :: ds =>
      let v := Z.abs (byte_Z d - 128) in
      peak_from ds (if (v >? peak)%Z then v else peak)
  end.

(** [Math.min(100, Math.round((peak / 128) * 100))].  For an integer
    [0 <= peak <= 128] the double [peak / 128 * 100] is exactly
    [25 * peak / 32] (at most five fractional bits), and [Math.round x]
    is [floor (x + 1/2)], hence the integer formula. *)
Definition js_round_peak (peak : Z) : Z := ((25 * peak + 16) / 32)%Z.

Definition level_of (data : list Byte.byte) : Z :=
  Z.min 100 (js_round_peak (peak_from data 0%Z)).

(** [String.prototype.includes]. *)
Definition includes (s sub : string) : bool :=
  match String.index 0 sub s with Some _ => true | None => false end.

(** The MIME negotiation of [setupAudio]. *)
Definition select_mime (isTypeSupported : string -> bool) : string :=
  if isTypeSupported "audio/webm;codecs=opus" then "audio/webm;codecs=opus"
  else if isTypeSupported "audio/mp4" then "audio/mp4"
  else "audio/webm".

(** The extension hint computed in [finalize]. *)
Definition ext_hint (mime : string) : string :=
  if includes mime "mp4" || includes mime "m4a" then "m4a"
  else if includes mime "webm" then "webm"
  else "webm".

(** [mr.mimeType || "audio/webm"]. *)
Definition effective_mime (mimeType : string) : string :=
  if String.eqb mimeType "" then "audio/webm" else mimeType.

(** Base64 (RFC 4648, with padding), the encoding of data URLs. *)
Definition b64_alphabet : string :=
  "ABCDEFGHIJKLMNOPQRSTUVWXYZabcdefghijklmnopqrstuvwxyz0123456789+/".

Definition b64_char (n : Z) : string :=
  match String.get (Z.to_nat (n mod 64)) b64_alphabet with
  | Some c => String c EmptyString
  | None => "A"
  end.

Fixpoint base64 (bs : list Byte.byte) : string :=
  match bs with
  | b1 :: b2 :: b3 :: rest =>
      let n := byte_Z b1 * 65536 + byte_Z b2 * 256 + byte_Z b3 in
      b64_char (n / 262144) ++ b64_char (n / 4096) ++
      b64_char (n / 64) ++ b64_char n ++ base64 rest
  | [b1; b2] =>
      let n := byte_Z b1 * 65536 + byte_Z b2 * 256 in
      b64_char (n / 262144) ++ b64_char (n / 4096) ++ b64_char (n / 64) ++ "="
  | [b1] =>
      let n := byte_Z b1 * 65536 in
      b64_char (n / 262144) ++ b64_char (n / 4096) ++ "=="
  | [] => ""
  end.

(** The [type] of [new Blob(parts, { type: mime })]: empty when [mime]
    has a character outside U+0020..U+007E, ASCII-lowercased otherwise. *)
Definition printable (c : ascii) : bool :=
  (32 <=? nat_of_ascii c)%nat && (nat_of_ascii c <=? 126)%nat.

Definition lower (c : ascii) : ascii :=
  let n := nat_of_ascii c in
  if (65 <=? n)%nat && (n <=? 90)%nat then ascii_of_nat (n + 32) else c.

Fixpoint all_printable (s : string) : bool :=
  match s with
  | EmptyString => true
  | String c s' => printable c && all_printable s'
  end.

Fixpoint lowercase (s : string) : string :=
  match s with
  | EmptyString => EmptyString
  | String c s' => String (lower c) (lowercase s')
  end.

Definition blob_type (mime : string) : string :=
  if all_printable mime then lowercase mime else "".

(** [blobToBase64] resolves with [reader.result] of [readAsDataURL]:
    a data URL carrying the blob's type and its bytes in base64.  For an
    empty blob the webviews Tauri runs on (Chromium, WebKit) return just
    ["data:"]. *)
Definition blobToBase64 (type : string) (bytes : list Byte.byte) : string :=
  match bytes with
  | [] => "data:"
  | _ :: _ => "data:" ++ type ++ ";base64," ++ base64 bytes
  end.

(** Plain base64 text, what the names [base64], [base64Data] and
    [save_audio_base64] announce: characters of the alphabet and [=]. *)
Fixpoint is_base64_text (s : string) : bool :=
  match s with
  | EmptyString => true
  | String c s' =>
      (includes b64_alphabet (String c EmptyString) || Ascii.eqb c "="%char)%bool
      && is_base64_text s'
  end.

End Audio.

(* ------------------------------------------------------------------ *)
(** ** The [Recorder] component (session controller and capture adapter) *)

Module Recorder.
Import Audio.

Inductive Status := Idle | Recording | Paused.

(** [MediaRecorder.state]. *)
Inductive rec_state := Inactive | RRecording | RPaused.

Record media_recorder := MR { mr_state : rec_state; mimeType : string }.

(** The React state and refs of the component.  [timerRef] holds the
    [started] time captured by the registered 200 ms interval;
    [rafRef] tells whether a meter animation frame is pending; the four
    audio refs tell whether the resource is held. *)
Record rstate := RS {
  status : Status;
  elapsed : Z;
  timerRef : option Z;
  level : Z;
  rafRef : bool;
  savingPath : option string;
  mediaStreamRef : bool;
  audioCtxRef : bool;
  sourceNodeRef : bool;
  analyserRef : bool;
  mediaRecorderRef : option media_recorder;
  chunksRef : list (list Byte.byte)
}.

Definition init : rstate :=
  RS Idle 0 None 0 false None false false false false None [].

(** Operations invoked on the MediaRecorder. *)
Inductive mr_op := MStart | MPause | MResume | MStop.

Inductive event :=
| Call (op : mr_op) (st : rec_state)     (* op invoked on a recorder in state st *)
| Append (st : Status) (c : list Byte.byte) (* chunksRef.current.push, status at that time *)
| Clear                                  (* chunksRef.current = [] *)
| Save (base64Data extHint : string)     (* invoke("save_audio_base64", ...) *)
| Emit (name : string).                  (* emit(name) *)

(** Completion of an async handler: resolved, or rejected with a reason. *)
Inductive outcome (A : Type) := Done (a : A) | Thrown (e : string).
Arguments Done {A} a.
Arguments Thrown {A} e.

(** Handlers run in a state, writer and exception monad. *)
Definition M (A : Type) := rstate -> outcome A * rstate * list event.

Definition ret {A} (a : A) : M A := fun s => (Done a, s, []).
Definition throw {A} (e : string) : M A := fun s => (Thrown e, s, []).
Definition bind {A B} (m : M A) (k : A -> M B) : M B :=
  fun s => match m s with
           | (Done a, s1, w1) => let '(r, s2, w2) := k a s1 in (r, s2, app w1 w2)
           | (Thrown e, s1, w1) => (Thrown e, s1, w1)
           end.
Definition get : M rstate := fun s => (Done s, s, []).
Definition modify (f : rstate -> rstate) : M unit := fun s => (Done tt, f s, []).
Definition log (e : event) : M unit := fun s => (Done tt, s, [e]).

Notation "x <- m ;; k" := (bind m (fun x => k))
  (at level 61, m at next level, right associativity).
Notation "m ;;; k" := (bind m (fun _ => k))
  (at level 61, right associativity).

(** Field setters (the [setX] of [useState] and the [ref.current =]). *)
Definition setStatus v := modify (fun s =>
  RS v s.(elapsed) s.(timerRef) s.(level) s.(rafRef) s.(savingPath)
     s.(mediaStreamRef) s.(audioCtxRef) s.(sourceNodeRef) s.(analyserRef)
     s.(mediaRecorderRef) s.(chunksRef)).
Definition setElapsed v := modify (fun s =>
  RS s.(status) v s.(timerRef) s.(level) s.(rafRef) s.(savingPath)
     s.(mediaStreamRef) s.(audioCtxRef) s.(sourceNodeRef) s.(analyserRef)
     s.(mediaRecorderRef) s.(chunksRef)).
Definition setTimerRef v := modify (fun s =>
  RS s.(status) s.(elapsed) v s.(level) s.(rafRef) s.(savingPath)
     s.(mediaStreamRef) s.(audioCtxRef) s.(sourceNodeRef) s.(analyserRef)
     s.(mediaRecorderRef) s.(chunksRef)).
Definition setLevel v := modify (fun s =>
  RS s.(status) s.(elapsed) s.(timerRef) v s.(rafRef) s.(savingPath)
     s.(mediaStreamRef) s.(audioCtxRef) s.(sourceNodeRef) s.(analyserRef)
     s.(mediaRecorderRef) s.(chunksRef)).
Definition setRafRef v := modify (fun s =>
  RS s.(status) s.(elapsed) s.(timerRef) s.(level) v s.(savingPath)
     s.(mediaStreamRef) s.(audioCtxRef) s.(sourceNodeRef) s.(analyserRef)
     s.(mediaRecorderRef) s.(chunksRef)).
Definition setSavingPath v := modify (fun s =>
  RS s.(status) s.(elapsed) s.(timerRef) s.(level) s.(rafRef) v
     s.(mediaStreamRef) s.(audioCtxRef) s.(sourceNodeRef) s.(analyserRef)
     s.(mediaRecorderRef) s.(chunksRef)).
Definition setAudioRefs (stream ctx src an : bool) := modify (fun s =>
  RS s.(status) s.(elapsed) s.(timerRef) s.(level) s.(rafRef) s.(savingPath)
     stream ctx src an s.(mediaRecorderRef) s.(chunksRef)).
Definition setMediaRecorderRef v := modify (fun s =>
  RS s.(status) s.(elapsed) s.(timerRef) s.(level) s.(rafRef) s.(savingPath)
     s.(mediaStreamRef) s.(audioCtxRef) s.(sourceNodeRef) s.(analyserRef)
     v s.(chunksRef)).
Definition setChunksRef v := modify (fun s =>
  RS s.(status) s.(elapsed) s.(timerRef) s.(level) s.(rafRef) s.(savingPath)
     s.(mediaStreamRef) s.(audioCtxRef) s.(sourceNodeRef) s.(analyserRef)
     s.(mediaRecorderRef) v).

(** Outcome of [setupAudio]'s platform calls. *)
Inductive acquisition :=
| AcqDenied (e : string)        (* getUserMedia rejects: no permission or device *)
| AcqRecorderFails (e : string) (* new MediaRecorder(...) throws *)
| AcqOk (isTypeSupported : string -> bool).

(** [startMeter]: the first [loop()] runs at once on [frame], then an
    animation frame is requested. *)
Definition startMeter (frame : list Byte.byte) : M unit :=
  s <- get ;;
  if s.(analyserRef) then setLevel (level_of frame) ;;; setRafRef true
  else ret tt.

Definition stopMeter : M unit := setRafRef false ;;; setLevel 0.

(** [startTimer]: [started = Date.now() - elapsed]. *)
Definition startTimer (now : Z) : M unit :=
  s <- get ;; setTimerRef (Some (now - s.(elapsed))).

Definition stopTimer : M unit := setTimerRef None.

Definition resetTimer : M unit := setElapsed 0.

Definition setupAudio (acq : acquisition) : M unit :=
  match acq with
  | AcqDenied e => throw e
  | AcqRecorderFails e => setAudioRefs true true true true ;;; throw e
  | AcqOk sup =>
      setAudioRefs true true true true ;;;
      setMediaRecorderRef (Some (MR Inactive (select_mime sup)))
  end.

(** [mr.ondataavailable]. *)
Definition ondataavailable (c : list Byte.byte) : M unit :=
  if (0 <? List.length c)%nat then
    s <- get ;;
    log (Append s.(status) c) ;;; setChunksRef (app s.(chunksRef) [c])
  else ret tt.

Definition teardownAudio : M unit :=
  stopMeter ;;; setAudioRefs false false false false.

(** Invoke [op] on the recorder held in [mediaRecorderRef]. *)
Definition mr_call (op : mr_op) (r : media_recorder) (next : rec_state) : M unit :=
  log (Call op r.(mr_state)) ;;;
  setMediaRecorderRef (Some (MR next r.(mimeType))).

Definition startRecording (now : Z) (acq : acquisition)
           (frame : list Byte.byte) : M unit :=
  setupAudio acq ;;;
  setChunksRef [] ;;; log Clear ;;;
  s <- get ;;
  match s.(mediaRecorderRef) with
  | None => throw "TypeError"
  | Some r =>
      mr_call MStart r RRecording ;;;
      setStatus Recording ;;;
      startTimer now ;;;
      startMeter frame ;;;
      log (Emit "startWaveform")
  end.

Definition pauseRecording : M unit :=
  s <- get ;;
  match s.(mediaRecorderRef) with
  | Some (MR RRecording _ as r) =>
      mr_call MPause r RPaused ;;; setStatus Paused ;;; stopTimer
  | _ => ret tt
  end.

Definition resumeRecording (now : Z) : M unit :=
  s <- get ;;
  match s.(mediaRecorderRef) with
  | Some (MR RPaused _ as r) =>
      mr_call MResume r RRecording ;;; setStatus Recording ;;; startTimer now
  | _ => ret tt
  end.

(** [finalize]; [save] is the result of [invoke("save_audio_base64")]. *)
Definition finalize (r : media_recorder) (save : string + string) : M unit :=
  stopTimer ;;;
  resetTimer ;;;
  let mime := effective_mime r.(mimeType) in
  s <- get ;;
  let blob := List.concat s.(chunksRef) in
  setChunksRef [] ;;; log Clear ;;;
  let b64 := blobToBase64 (blob_type mime) blob in
  let ext := ext_hint mime in
  log (Save b64 ext) ;;;
  setSavingPath (Some (match save with
                       | inl savedPath => savedPath
                       | inr e => "Save failed: " ++ e
                       end)) ;;;
  teardownAudio ;;;
  setStatus Idle ;;;
  log (Emit "stopWaveform").

(** [stopRecording]; [mr.stop()] makes the recorder deliver its last
    buffered data [flush] to [ondataavailable], then fire "stop", whose
    listener is [finalize].  The model takes all of this, [finalize]'s
    awaits on [blobToBase64] and on the save included, as one step: no
    other action is interleaved with it. *)
Definition stopRecording (flush : list Byte.byte) (save : string + string) : M unit :=
  s <- get ;;
  match s.(mediaRecorderRef) with
  | None => ret tt
  | Some r =>
      match r.(mr_state) with
      | Inactive => finalize r save
      | _ =>
          mr_call MStop r Inactive ;;;
          ondataavailable flush ;;;
          finalize (MR Inactive r.(mimeType)) save
      end
  end.

(** User actions (the three buttons) and platform callbacks. *)
Inductive action :=
| AStart (now : Z) (acq : acquisition) (frame : list Byte.byte)
| APause
| AResume (now : Z)
| AStop (flush : list Byte.byte) (save : string + string)
| ATick (now : Z)              (* the 200 ms interval fires *)
| AFrame (data : list Byte.byte) (* the pending animation frame fires *)
| AData (c : list Byte.byte).    (* a 250 ms timeslice of data is delivered *)

(** The interval callback exists only while registered, the animation
    frame only while pending, timeslice data only while recording. *)
Definition handle (a : action) : M unit :=
  match a with
  | AStart now acq frame => startRecording now acq frame
  | APause => pauseRecording
  | AResume now => resumeRecording now
  | AStop flush save => stopRecording flush save
  | ATick now =>
      s <- get ;;
      match s.(timerRef) with
      | Some started => setElapsed (now - started)
      | None => ret tt
      end
  | AFrame data =>
      s <- get ;;
      if s.(rafRef) then setLevel (level_of data) ;;; setRafRef true else ret tt
  | AData c =>
      s <- get ;;
      match s.(mediaRecorderRef) with
      | Some (MR RRecording _) => ondataavailable c
      | _ => ret tt
      end
  end.

Definition post (s : rstate) (a : action) : rstate :=
  let '(_, s', _) := handle a s in s'.

Definition events (s : rstate) (a : action) : list event :=
  let '(_, _, w) := handle a s in w.

(** Which actions the rendered buttons allow: Start is disabled unless
    [status === "idle"]; the pause/resume button and Stop are disabled
    when idle, and the pause/resume button runs [pauseRecording] when
    recording and [resumeRecording] otherwise. *)
Definition enabled (s : rstate) (a : action) : Prop :=
  match a with
  | AStart _ _ _ => s.(status) = Idle
  | APause => s.(status) = Recording
  | AResume _ => s.(status) = Paused
  | AStop _ _ => s.(status) <> Idle
  | _ => True
  end.

Inductive reachable : rstate -> Prop :=
| reach_init : reachable init
| reach_step s a : reachable s -> enabled s a -> reachable (post s a).

End Recorder.

(* ------------------------------------------------------------------ *)
(** ** The [App] component of [src/src/App.jsx] *)

Module App.

Record loading_t := Loading { recording : bool; transcribing : bool; sending : bool }.

Record astate := AS {
  sessionId : string;
  status : string;
  transcript : string;
  response : string;
  selectedPreset : string;
  presets : list (string * string);
  loading : loading_t;
  mock : bool;
  isRecording : bool;
  isPaused : bool;
  sidebarOpen : bool
}.

Definition init : astate :=
  AS "" "" "" "" "" [] (Loading false false false) true false false false.

Definition with_recording (l : loading_t) (b : bool) : loading_t :=
  Loading b l.(transcribing) l.(sending).

(** [toggleMock]. *)
Definition toggleMock (s : astate) : astate :=
  AS s.(sessionId) "" "" "" "" s.(presets) s.(loading) (negb s.(mock))
     s.(isRecording) s.(isPaused) s.(sidebarOpen).

(** [handleRecordStart]: [mockId] is the random id of the mock branch,
    [reply] the [json.sessionId || ''] of the POST to [/record/start],
    [None] when [fetch] or [res.json()] rejects. *)
Definition handleRecordStart (mockId : string) (reply : option string)
           (s : astate) : astate :=
  let ld := with_recording s.(loading) true in
  let '(sid, st) :=
    if s.(mock) then (mockId, "Recording started (mock).")
    else match reply with
         | Some id => (id, "Recording started.")
         | None => (s.(sessionId), "Failed to start recording.")
         end in
  AS sid st s.(transcript) s.(response) s.(selectedPreset) s.(presets)
     (with_recording ld false) s.(mock) true false s.(sidebarOpen).

End App.

(* ------------------------------------------------------------------ *)
(** ** Vocabulary for the properties of the recording session *)

Module Session.
Import Audio Recorder.

(** The operations a MediaRecorder accepts in each of its states. *)
Definition mr_valid (op : mr_op) (st : rec_state) : Prop :=
  match op, st with
  | MStart, Inactive => True
  | MPause, RRecording => True
  | MResume, RPaused => True
  | MStop, (RRecording | RPaused) => True
  | _, _ => False
  end.

(** The arguments of every [save_audio_base64] call in a list of events. *)
Fixpoint saves (evs : list event) : list (string * string) :=
  match evs with
  | [] => []
  | Save p e :: rest => (p, e) :: saves rest
  | _ :: rest => saves rest
  end.

(** The chunks held when [finalize] builds the blob: those accumulated
    so far, then the flush delivered by [mr.stop()] if non-empty. *)
Definition accumulated (s : rstate) (flush : list Byte.byte) : list (list Byte.byte) :=
  app s.(chunksRef) (if (0 <? List.length flush)%nat then [flush] else []).

Definition run (s : rstate) (acts : list action) : rstate := fold_left post acts s.

Definition not_start (a : action) : Prop :=
  match a with AStart _ _ _ => False | _ => True end.

Definition is_start (a : action) : Prop :=
  match a with AStart _ _ _ => True | _ => False end.

Definition is_stop (a : action) : Prop :=
  match a with AStop _ _ => True | _ => False end.

(** What the component's state says about its recorder and timer. *)
Definition Inv (s : rstate) : Prop :=
  match s.(status) with
  | Idle => s.(timerRef) = None /\
            (s.(mediaRecorderRef) = None \/
             exists m, s.(mediaRecorderRef) = Some (MR Inactive m))
  | Recording => exists m, s.(mediaRecorderRef) = Some (MR RRecording m)
  | Paused => s.(timerRef) = None /\
              exists m, s.(mediaRecorderRef) = Some (MR RPaused m)
  end.

(** A concrete session: recording started at time 1000 with every MIME
    type supported, then the same session paused. *)
Definition started : rstate :=
  post init (AStart 1000 (AcqOk (fun _ => true)) [Byte.x80]).

Definition paused : rstate := post started APause.

End Session.

(* ------------------------------------------------------------------ *)
(** ** The rest of the [App] component: its other handlers and effect *)

Module AppHandlers.
Import App.

Definition presetsMock : list (string * string) :=
  [("1", "Summary"); ("2", "Outline"); ("3", "Notes")].

Definition set_status (v : string) (s : astate) : astate :=
  AS s.(sessionId) v s.(transcript) s.(response) s.(selectedPreset) s.(presets)
     s.(loading) s.(mock) s.(isRecording) s.(isPaused) s.(sidebarOpen).
Definition set_transcript (v : string) (s : astate) : astate :=
  AS s.(sessionId) s.(status) v s.(response) s.(selectedPreset) s.(presets)
     s.(loading) s.(mock) s.(isRecording) s.(isPaused) s.(sidebarOpen).
Definition set_response (v : string) (s : astate) : astate :=
  AS s.(sessionId) s.(status) s.(transcript) v s.(selectedPreset) s.(presets)
     s.(loading) s.(mock) s.(isRecording) s.(isPaused) s.(sidebarOpen).
Definition set_presets (v : list (string * string)) (s : astate) : astate :=
  AS s.(sessionId) s.(status) s.(transcript) s.(response) s.(selectedPreset) v
     s.(loading) s.(mock) s.(isRecording) s.(isPaused) s.(sidebarOpen).
Definition set_loading (v : loading_t) (s : astate) : astate :=
  AS s.(sessionId) s.(status) s.(transcript) s.(response) s.(selectedPreset)
     s.(presets) v s.(mock) s.(isRecording) s.(isPaused) s.(sidebarOpen).
Definition set_recording_flags (rec paused : bool) (s : astate) : astate :=
  AS s.(sessionId) s.(status) s.(transcript) s.(response) s.(selectedPreset)
     s.(presets) s.(loading) s.(mock) rec paused s.(sidebarOpen).

(** [setLoading((prev) => ({ ...prev, <flag>: b }))]. *)
Definition with_transcribing (l : loading_t) (b : bool) : loading_t :=
  Loading l.(recording) b l.(sending).
Definition with_sending (l : loading_t) (b : bool) : loading_t :=
  Loading l.(recording) l.(transcribing) b.

Definition set_rec_loading (b : bool) (s : astate) : astate :=
  set_loading (with_recording s.(loading) b) s.
Definition set_tr_loading (b : bool) (s : astate) : astate :=
  set_loading (with_transcribing s.(loading) b) s.
Definition set_send_loading (b : bool) (s : astate) : astate :=
  set_loading (with_sending s.(loading) b) s.

(** [handleTranscribe]; [reply] is [json.text || ''] of the POST to
    [/transcribe], [None] when the request or [res.json()] rejects. *)
Definition handleTranscribe (reply : option string) (s : astate) : astate :=
  let s1 := set_tr_loading true s in
  let s2 :=
    if s.(mock) then
      set_status "Transcription complete (mock)."
        (set_transcript "This is a mock transcript." s1)
    else match reply with
         | Some text => set_status "Transcription complete." (set_transcript text s1)
         | None => set_status "Failed to transcribe." s1
         end in
  set_tr_loading false s2.

(** [handleRecordStop]; [reply] is [json.pathWav] of the POST to
    [/record/stop] (the empty string when absent or falsy), [None] when
    the request fails; [trReply] is the reply of the [handleTranscribe]
    it starts.  In the backend branch [handleTranscribe] is not awaited:
    its synchronous part sets [loading.transcribing], then [finally] clears
    [loading.recording], then the transcription completes; the flags are
    distinct fields, so the final state is the one computed here. *)
Definition handleRecordStop (reply : option string) (trReply : option string)
           (s : astate) : astate :=
  let s1 := set_recording_flags false false (set_rec_loading true s) in
  if s.(mock) then
    handleTranscribe trReply
      (set_rec_loading false (set_status "Recording stopped (mock)." s1))
  else match reply with
       | Some pathWav =>
           handleTranscribe trReply
             (set_rec_loading false
               (set_status (if String.eqb pathWav "" then "Recording stopped."
                            else "Saved recording to " ++ pathWav) s1))
       | None => set_rec_loading false (set_status "Failed to stop recording." s1)
       end.

(** [handleSend]; [reply] is [json.response || ''] of the POST to
    [/openai/query]. *)
Definition handleSend (reply : option string) (s : astate) : astate :=
  let s1 := set_send_loading true s in
  let s2 :=
    if s.(mock) then
      set_status "Sent to API (mock)." (set_response "This is a mock response from the API." s1)
    else match reply with
         | Some r => set_status "Received response." (set_response r s1)
         | None => set_status "Failed to query the API." s1
         end in
  set_send_loading false s2.

(** [handlePauseResume]: [isPaused] read from the render's closure. *)
Definition handlePauseResume (s : astate) : astate :=
  set_status (if s.(isPaused) then "Resuming..." else "Pausing...")
    (set_recording_flags s.(isRecording) (negb s.(isPaused)) s).

(** The presets effect, run when [mock] changes.  In mock mode it sets
    the built-in list at once; otherwise it starts [GET /presets] and
    returns [true] for the request left pending.  The effect returns no
    cleanup, so nothing cancels that request. *)
Definition presetsEffect (s : astate) : astate * bool :=
  if s.(mock) then (set_presets presetsMock s, false) else (s, true).

(** A pending [/presets] request settling: [reply] is [data || []],
    [None] when the request or [res.json()] rejects.  [setPresets] runs
    whatever the mode is by then. *)
Definition presetsSettle (reply : option (list (string * string))) (s : astate) : astate :=
  set_presets (match reply with Some data => data | None => [] end) s.

End AppHandlers.

(* ------------------------------------------------------------------ *)
(** ** The rest of the [Recorder] component and sequences of commands *)

Module Lifecycle.
Import Audio Recorder.

(** The cleanup returned by the component's [useEffect]. *)
Definition unmount : M unit := stopTimer ;;; stopMeter ;;; teardownAudio.

Definition unmounted (s : rstate) : rstate := let '(_, s', _) := unmount s in s'.

(** [String(n)] for an integer: decimal digits, with a minus sign when
    negative. *)
Definition digit (n : N) : string := String (ascii_of_N (48 + n)) EmptyString.

Fixpoint dec_fuel (fuel : nat) (n : N) : string :=
  match fuel with
  | O => EmptyString
  | S f => if (n <? 10)%N then digit n else dec_fuel f (n / 10) ++ digit (n mod 10)
  end.

Definition js_string_N (n : N) : string := dec_fuel (S (N.to_nat (N.log2 n))) n.

Definition js_String (z : Z) : string :=
  if (z <? 0)%Z then "-" ++ js_string_N (Z.to_N (- z)) else js_string_N (Z.to_N z).

(** [.padStart(2, "0")]. *)
Definition padStart2 (s : string) : string :=
  match String.length s with
  | O => "00"
  | 1%nat => "0" ++ s
  | _ => s
  end.

(** The [mm] and [ss] of the readout: [seconds = Math.floor(elapsed / 1000)],
    [mm] from [Math.floor(seconds / 60)], [ss] from [seconds % 60]
    ([%] is the truncated remainder). *)
Definition elapsed_display (elapsed : Z) : string * string :=
  let seconds := elapsed / 1000 in
  (padStart2 (js_String (seconds / 60)), padStart2 (js_String (Z.rem seconds 60))).

(** Reading a string of decimal digits back as a number. *)
Fixpoint parse_dec_acc (acc : N) (s : string) : N :=
  match s with
  | EmptyString => acc
  | String c s' => parse_dec_acc (10 * acc + (N_of_ascii c - 48)) s'
  end.

Definition parse_dec (s : string) : N := parse_dec_acc 0 s.

Fixpoint all_digits (s : string) : bool :=
  match s with
  | EmptyString => true
  | String c s' =>
      (48 <=? N_of_ascii c)%N && (N_of_ascii c <=? 57)%N && all_digits s'
  end.

(** What the component's state holds outside and during a session. *)
Definition SessionInv (s : rstate) : Prop :=
  match s.(status) with
  | Idle => s.(elapsed) = 0 /\ s.(level) = 0 /\ s.(rafRef) = false /\
            s.(timerRef) = None /\ s.(chunksRef) = []
  | Recording => s.(rafRef) = true /\ s.(mediaStreamRef) = true /\
                 s.(audioCtxRef) = true /\ s.(sourceNodeRef) = true /\
                 s.(analyserRef) = true /\ s.(timerRef) <> None
  | Paused => s.(rafRef) = true /\ s.(mediaStreamRef) = true /\
              s.(audioCtxRef) = true /\ s.(sourceNodeRef) = true /\
              s.(analyserRef) = true /\ s.(timerRef) = None
  end.

Definition negotiated_mimes : list string :=
  ["audio/webm;codecs=opus"; "audio/mp4"; "audio/webm"].

(** A sequence of exported helper calls, the [_cachedInvoke] carried from
    one to the next. *)
Fixpoint run_helpers (isTauri : bool) (cached : option Gateway.invoker)
         (be : Gateway.backend) (hs : list Gateway.helper)
  : list (string + Gateway.error) * option Gateway.invoker * list Gateway.effect :=
  match hs with
  | [] => ([], cached, [])
  | h :: rest =>
      let '(r, cached1, eff1) := Gateway.run_helper isTauri cached be h in
      let '(rs, cached2, eff2) := run_helpers isTauri cached1 be rest in
      (r :: rs, cached2, app eff1 eff2)
  end.

Definition count_imports (effs : list Gateway.effect) : nat :=
  List.length (filter (fun e => match e with Gateway.ImportCore => true | _ => false end) effs).

Definition remote_calls (effs : list Gateway.effect) : list (string * Gateway.args) :=
  flat_map (fun e => match e with Gateway.Remote c a => [(c, a)] | _ => [] end) effs.

End Lifecycle.

(* ================================================================== *)
(** * Properties *)

Module RecorderProofs.
Import Audio Recorder Session.

Lemma finalize_eq r save s :
  finalize r save s =
  (Done tt,
   RS Idle 0 None 0 false
      (Some (match save with inl p => p | inr e => "Save failed: " ++ e end))
      false false false false s.(mediaRecorderRef) [],
   [Clear;
    Save (blobToBase64 (blob_type (effective_mime r.(mimeType)))
                       (List.concat s.(chunksRef)))
         (ext_hint (effective_mime r.(mimeType)));
    Emit "stopWaveform"]).
Proof. destruct s; reflexivity. Qed.

Lemma stop_active_eq s st m flush save :
  s.(mediaRecorderRef) = Some (MR st m) -> st <> Inactive ->
  handle (AStop flush save) s =
  (Done tt,
   RS Idle 0 None 0 false
      (Some (match save with inl p => p | inr e => "Save failed: " ++ e end))
      false false false false (Some (MR Inactive m)) [],
   Call MStop st ::
   app (if (0 <? List.length flush)%nat then [Append s.(status) flush] else [])
   [Clear;
    Save (blobToBase64 (blob_type (effective_mime m))
                       (List.concat (accumulated s flush)))
         (ext_hint (effective_mime m));
    Emit "stopWaveform"]).
Proof.
  intros Hr Hst. destruct s; simpl in Hr; subst.
  unfold accumulated.
  destruct st; [congruence | |];
    (destruct flush; [simpl (0 <? _)%nat; cbv iota; rewrite app_nil_r |]);
    reflexivity.
Qed.

Ltac close_inv :=
  simpl; repeat match goal with |- _ /\ _ => split end; eauto.
Lemma inv_step s a : Inv s -> enabled s a -> Inv (post s a).
Proof.
  destruct s as [st el tm lv rf sp ms ac sn an mr ch].
  unfold Inv, enabled; simpl.
  destruct a as [now acq frame| |now|flush save|now|data|c]; simpl; intros HI Hen.
  - subst st. destruct HI as [Htm Hmr]. destruct acq; close_inv.
  - subst st. destruct HI as [m ->]. close_inv.
  - subst st. destruct HI as [_ [m ->]]. close_inv.
  - unfold post. destruct st; [congruence | |].
    + destruct HI as [m Hm].
      rewrite (stop_active_eq _ RRecording m flush save); simpl; eauto; congruence.
    + destruct HI as [_ [m Hm]].
      rewrite (stop_active_eq _ RPaused m flush save); simpl; eauto; congruence.
  - destruct tm; simpl; destruct st; auto.
  - destruct rf; simpl; destruct st; auto.
  - destruct mr as [[[] m]|];
      unfold post, handle, ondataavailable, bind, get, ret, log, modify, setChunksRef; simpl;
      try destruct (0 <? List.length c)%nat; simpl; auto.
Qed.
Lemma reachable_inv s : reachable s -> Inv s.
Proof.
  induction 1 as [|s a Hr IH Hen].
  - unfold Inv; simpl; auto.
  - apply inv_step; assumption.
Qed.

Ltac unfold_handlers :=
  unfold post, events, handle, startRecording, pauseRecording, resumeRecording,
    stopRecording, finalize, setupAudio, ondataavailable, teardownAudio,
    startMeter, stopMeter, startTimer, stopTimer, resetTimer, mr_call,
    bind, get, ret, throw, log, modify,
    setStatus, setElapsed, setTimerRef, setLevel, setRafRef, setSavingPath,
    setAudioRefs, setMediaRecorderRef, setChunksRef in *; simpl in *.

(** C4: every operation the component invokes on the MediaRecorder is
    valid in the recorder's state at that moment: [pause()] only on a
    recording recorder, [resume()] only on a paused one, [start()] only
    on an inactive one, [stop()] only on an active one.  This holds from
    any state, for any action. *)
Lemma mr_calls_valid s a op st :
  In (Call op st) (events s a) -> mr_valid op st.
Proof.
  destruct s as [sst el tm lv rf sp ms ac sn an mr ch].
  destruct a as [now acq frame| |now|flush save|now|data|c];
    try destruct acq; try destruct mr as [[[] m]|];
    try destruct tm; try destruct rf;
    unfold_handlers;
    try destruct (0 <? List.length c)%nat;
    try destruct (0 <? List.length flush)%nat; simpl.
  all: try (intros H; repeat destruct H as [H|H]; try discriminate; try contradiction;
    inversion H; subst; exact I).
Qed.

Lemma session_recorder s :
  reachable s -> status s <> Idle ->
  exists st m, mediaRecorderRef s = Some (MR st m) /\ st <> Inactive.
Proof.
  intros Hr Hn. pose proof (reachable_inv s Hr) as HI. unfold Inv in HI.
  destruct (status s); [congruence | |].
  - destruct HI as [m Hm]. exists RRecording, m. split; [exact Hm | discriminate].
  - destruct HI as [_ [m Hm]]. exists RPaused, m. split; [exact Hm | discriminate].
Qed.

(** C1: from [recording] or [paused], [stopRecording] ends in status
    [idle] with elapsed time 0, whether [save_audio_base64] succeeds
    ([inl]) or fails ([inr]). *)
Theorem stop_resets_to_idle s flush save :
  reachable s -> status s <> Idle ->
  status (post s (AStop flush save)) = Idle /\
  elapsed (post s (AStop flush save)) = 0.
Proof.
  intros Hr Hn. destruct (session_recorder s Hr Hn) as (st & m & Hm & Hst).
  unfold post. rewrite (stop_active_eq s st m flush save Hm Hst). simpl. auto.
Qed.

Lemma started_reachable : reachable started.
Proof. unfold started. apply reach_step; [constructor | reflexivity]. Qed.

Lemma paused_reachable : reachable paused.
Proof.
  unfold paused. apply reach_step; [apply started_reachable | reflexivity].
Qed.

Lemma stop_resets_to_idle_witness :
  reachable paused /\ status paused <> Idle /\
  status (post paused (AStop [Byte.x4d] (inr "IO error"))) = Idle /\
  elapsed (post paused (AStop [Byte.x4d] (inr "IO error"))) = 0.
Proof.
  assert (Hr : reachable paused).
  { unfold paused, started.
    apply reach_step; [apply reach_step; [constructor | reflexivity] | reflexivity]. }
  assert (Hn : status paused <> Idle) by (vm_compute; discriminate).
  split; [exact Hr | split; [exact Hn | apply (stop_resets_to_idle paused); assumption]].
Defined.

Lemma calls_valid_witness :
  In (Call MPause RRecording) (events started APause) /\
  mr_valid MPause RRecording.
Proof.
  assert (H : In (Call MPause RRecording) (events started APause))
    by (vm_compute; left; reflexivity).
  split; [exact H | apply (mr_calls_valid started APause); exact H].
Defined.

(** C5 (counterexample): stopping a paused session appends the
    recorder's final flush while the status is [paused], and [finalize]
    clears the accumulator on stop, not only at start. *)
Theorem chunks_claim_fails :
  ~ (forall s a, reachable s -> enabled s a ->
      (forall st c, In (Append st c) (events s a) -> st = Recording) /\
      (In Clear (events s a) -> is_start a)).
Proof.
  intros H.
  destruct (H paused (AStop [Byte.x4d] (inl "p"))) as [H1 H2].
  - apply paused_reachable.
  - vm_compute. discriminate.
  - assert (Hp : Paused = Recording).
    { apply (H1 Paused [Byte.x4d]). vm_compute. right. left. reflexivity. }
    discriminate Hp.
Qed.

(** Which events append and clear: appends while [recording], or while
    [paused] for the flush delivered on stop; clears only on start or stop. *)
Lemma chunk_events s a :
  reachable s -> enabled s a ->
  (forall st c, In (Append st c) (events s a) ->
     st = Recording \/ (st = Paused /\ is_stop a)) /\
  (In Clear (events s a) -> is_start a \/ is_stop a).
Proof.
  intros Hr Hen. pose proof (reachable_inv s Hr) as HI. revert HI Hen.
  destruct s as [sst el tm lv rf sp ms ac sn an mr ch].
  unfold Inv, enabled; simpl.
  destruct a as [now acq frame| |now|flush save|now|data|c];
    try destruct acq; try destruct mr as [[[] m]|];
    try destruct tm; try destruct rf;
    unfold_handlers;
    try destruct (0 <? List.length c)%nat;
    try destruct (0 <? List.length flush)%nat; simpl;
    intros HI Hen; split; try (intros st0 c0 H); try intros H;
    repeat destruct H as [H|H]; try discriminate; try contradiction;
    simpl; auto;
    try (inversion H; subst; destruct st0; auto; congruence).
  all: destruct sst; try congruence;
    try (destruct HI as [_ [HI|[m0 HI]]]; discriminate);
    try (destruct HI as [_ [m0 HI]]; discriminate); auto.
all: inversion H; subst; auto.
Qed.

(** C5 (amended): a chunk is appended only while the status is
    [recording], or [paused] for the final flush delivered on stop.  The
    accumulator is cleared only by start and by stop: a successful start
    clears it and leaves it empty; a stop clears it exactly once, in
    [finalize], right before the save whose payload is built from all the
    chunks accumulated until then (the flush included), and leaves it
    empty. *)
Theorem chunk_accumulation s a :
  reachable s -> enabled s a ->
  (forall st c, In (Append st c) (events s a) ->
     st = Recording \/ (st = Paused /\ is_stop a)) /\
  (In Clear (events s a) -> is_start a \/ is_stop a) /\
  (forall now sup frame, a = AStart now (AcqOk sup) frame ->
     In Clear (events s a) /\ chunksRef (post s a) = []) /\
  (forall flush save, a = AStop flush save ->
     exists pre typ ext rest,
       events s a =
         app pre (Clear :: Save (blobToBase64 typ (List.concat (accumulated s flush))) ext
                  :: rest) /\
       ~ In Clear pre /\ ~ In Clear rest /\
       chunksRef (post s a) = []).
Proof.
  intros Hr Hen.
  destruct (chunk_events s a Hr Hen) as [H1 H2].
  split; [exact H1 | split; [exact H2 | split]].
  - intros now sup frame ->. simpl in Hen.
    destruct s as [sst el tm lv rf sp ms ac sn an mr ch]; simpl in Hen; subst.
    unfold_handlers. split; [simpl; auto | reflexivity].
  - intros flush save ->. simpl in Hen.
    destruct (session_recorder s Hr Hen) as (st & m & Hm & Hst).
    unfold events, post. rewrite (stop_active_eq s st m flush save Hm Hst).
    exists (Call MStop st ::
            (if (0 <? List.length flush)%nat then [Append (status s) flush] else [])),
      (blob_type (effective_mime m)), (ext_hint (effective_mime m)), [Emit "stopWaveform"].
    split; [reflexivity |].
    split; [| split; [simpl; intros [H|H]; [discriminate | exact H] | reflexivity]].
    destruct (0 <? List.length flush)%nat; simpl; intuition discriminate.
Qed.

Lemma chunk_accumulation_witness :
  reachable paused /\ enabled paused (AStop [Byte.x4d] (inl "p")) /\
  exists pre typ ext rest,
    events paused (AStop [Byte.x4d] (inl "p")) =
      app pre (Clear :: Save (blobToBase64 typ
                                (List.concat (accumulated paused [Byte.x4d]))) ext
               :: rest) /\
    ~ In Clear pre /\ ~ In Clear rest /\
    chunksRef (post paused (AStop [Byte.x4d] (inl "p"))) = [].
Proof.
  assert (Hr : reachable paused).
  { unfold paused, started.
    apply reach_step; [apply reach_step; [constructor | reflexivity] | reflexivity]. }
  assert (He : enabled paused (AStop [Byte.x4d] (inl "p")))
    by (vm_compute; discriminate).
  split; [exact Hr | split; [exact He |]].
  exact (proj2 (proj2 (proj2 (chunk_accumulation paused _ Hr He))) _ _ eq_refl).
Defined.

(** C6 (code bug): a stop from [recording] or [paused] issues exactly
    one [save_audio_base64] call, with the extension hint [m4a] when the
    MIME type contains [mp4] or [m4a] and [webm] otherwise, as the claim
    says.  But its [base64Data] is the value of [blobToBase64], i.e. the
    data URL of [readAsDataURL], which is never plain base64 text: it
    starts with ["data:"], and for a non-empty recording the base64 of
    the concatenated chunks only follows the prefix
    ["data:<type>;base64,"], which the code never strips. *)
Theorem stop_payload_is_data_url s flush save :
  reachable s -> status s <> Idle ->
  exists st m,
    mediaRecorderRef s = Some (MR st m) /\
    saves (events s (AStop flush save)) =
    [(blobToBase64 (blob_type (effective_mime m)) (List.concat (accumulated s flush)),
      if (includes (effective_mime m) "mp4" || includes (effective_mime m) "m4a")%bool
      then "m4a" else "webm")] /\
    (exists rest,
       blobToBase64 (blob_type (effective_mime m)) (List.concat (accumulated s flush))
       = "data:" ++ rest) /\
    is_base64_text
      (blobToBase64 (blob_type (effective_mime m)) (List.concat (accumulated s flush)))
      = false /\
    (List.concat (accumulated s flush) <> [] ->
     blobToBase64 (blob_type (effective_mime m)) (List.concat (accumulated s flush)) =
     "data:" ++ blob_type (effective_mime m) ++ ";base64," ++
       base64 (List.concat (accumulated s flush))).
Proof.
  intros Hr Hn. destruct (session_recorder s Hr Hn) as (st & m & Hm & Hst).
  exists st, m. split; [exact Hm |].
  split.
  - unfold events. rewrite (stop_active_eq s st m flush save Hm Hst).
    unfold ext_hint.
    destruct (includes (effective_mime m) "mp4" || includes (effective_mime m) "m4a")%bool;
      [| destruct (includes (effective_mime m) "webm")];
      destruct (0 <? List.length flush)%nat; reflexivity.
  - destruct (List.concat (accumulated s flush)) as [|b bs].
    + refine (conj (ex_intro _ EmptyString eq_refl) (conj eq_refl _)).
      intros H. exfalso. apply H. reflexivity.
    + refine (conj (ex_intro _ _ eq_refl) (conj eq_refl _)).
      intros _. reflexivity.
Qed.

Lemma stop_payload_is_data_url_witness :
  reachable paused /\ status paused <> Idle /\
  exists st m,
    mediaRecorderRef paused = Some (MR st m) /\
    saves (events paused (AStop [Byte.x4d] (inl "p"))) =
    [(blobToBase64 (blob_type (effective_mime m))
        (List.concat (accumulated paused [Byte.x4d])),
      if (includes (effective_mime m) "mp4" || includes (effective_mime m) "m4a")%bool
      then "m4a" else "webm")] /\
    (exists rest,
       blobToBase64 (blob_type (effective_mime m))
         (List.concat (accumulated paused [Byte.x4d])) = "data:" ++ rest) /\
    is_base64_text
      (blobToBase64 (blob_type (effective_mime m))
        (List.concat (accumulated paused [Byte.x4d]))) = false /\
    (List.concat (accumulated paused [Byte.x4d]) <> [] ->
     blobToBase64 (blob_type (effective_mime m))
       (List.concat (accumulated paused [Byte.x4d])) =
     "data:" ++ blob_type (effective_mime m) ++ ";base64," ++
       base64 (List.concat (accumulated paused [Byte.x4d]))).
Proof.
  assert (Hr : reachable paused).
  { unfold paused, started.
    apply reach_step; [apply reach_step; [constructor | reflexivity] | reflexivity]. }
  assert (Hn : status paused <> Idle) by (vm_compute; discriminate).
  split; [exact Hr | split; [exact Hn |]].
  exact (stop_payload_is_data_url paused [Byte.x4d] (inl "p") Hr Hn).
Defined.

(** C7: while paused no tick changes the state (the interval is
    cleared), and resuming keeps the elapsed value and restarts the
    tick from it. *)
Theorem pause_resume_elapsed s :
  reachable s -> status s = Paused ->
  (forall t, post s (ATick t) = s) /\
  (forall now t,
     status (post s (AResume now)) = Recording /\
     elapsed (post s (AResume now)) = elapsed s /\
     elapsed (post (post s (AResume now)) (ATick t)) = elapsed s + (t - now)).
Proof.
  intros Hr Hp. pose proof (reachable_inv s Hr) as HI. unfold Inv in HI.
  rewrite Hp in HI. destruct HI as [Htm [m Hm]].
  destruct s as [sst el tm lv rf sp ms ac sn an mr ch]; simpl in *; subst.
  split.
  - intros t. reflexivity.
  - intros now t. unfold_handlers. repeat split. lia.
Qed.

Lemma pause_resume_elapsed_witness :
  reachable paused /\ status paused = Paused /\
  elapsed (post (post paused (AResume 5000)) (ATick 5600)) = elapsed paused + 600.
Proof.
  assert (Hr : reachable paused).
  { unfold paused, started.
    apply reach_step; [apply reach_step; [constructor | reflexivity] | reflexivity]. }
  assert (Hp : status paused = Paused) by reflexivity.
  split; [exact Hr | split; [exact Hp |]].
  exact (proj2 (proj2 (proj2 (pause_resume_elapsed paused Hr Hp) 5000 5600))).
Defined.

Lemma peak_from_nonneg data p : 0 <= p -> 0 <= peak_from data p.
Proof.
  revert p. induction data as [|d ds IH]; intros p Hp; simpl; [exact Hp |].
  apply IH. destruct (Z.abs (byte_Z d - 128) >? p); [apply Z.abs_nonneg | exact Hp].
Qed.

(** C8: the level the meter loop computes from any byte frame is an
    integer in [0, 100]. *)
Theorem level_in_range data : 0 <= level_of data <= 100.
Proof.
  unfold level_of, js_round_peak.
  pose proof (peak_from_nonneg data 0 (Z.le_refl 0)) as Hp.
  split.
  - apply Z.min_glb; [lia | apply Z.div_pos; lia].
  - apply Z.le_min_l.
Qed.

Lemma meter_stays_off s a :
  level s = 0 -> rafRef s = false -> not_start a ->
  level (post s a) = 0 /\ rafRef (post s a) = false.
Proof.
  destruct s as [sst el tm lv rf sp ms ac sn an mr ch]; simpl.
  intros Hl Hrf Hns; subst.
  destruct a as [now acq frame| |now|flush save|now|data|c];
    simpl in Hns; try contradiction;
    try destruct mr as [[[] m]|];
    try destruct tm;
    unfold_handlers;
    try destruct (0 <? List.length c)%nat;
    try destruct (0 <? List.length flush)%nat; simpl; auto.
Qed.

Lemma run_meter_off acts s :
  level s = 0 -> rafRef s = false -> Forall not_start acts ->
  level (run s acts) = 0 /\ rafRef (run s acts) = false.
Proof.
  revert s. induction acts as [|a acts IH]; intros s Hl Hrf Hall; simpl; auto.
  inversion Hall as [|a' acts' Ha Hacts]; subst.
  destruct (meter_stays_off s a Hl Hrf Ha) as [Hl' Hrf'].
  apply IH; assumption.
Qed.

(** C9: after a stop the level is 0 and stays 0 through any actions
    that do not start a new recording. *)
Theorem level_zero_after_stop s flush save acts :
  reachable s -> status s <> Idle -> Forall not_start acts ->
  level (run (post s (AStop flush save)) acts) = 0.
Proof.
  intros Hr Hn Hall. destruct (session_recorder s Hr Hn) as (st & m & Hm & Hst).
  apply run_meter_off; [| | exact Hall];
    unfold post; rewrite (stop_active_eq s st m flush save Hm Hst); reflexivity.
Qed.

Lemma level_zero_after_stop_witness :
  reachable started /\ status started <> Idle /\
  level (run (post started (AStop [] (inl "p")))
             [AFrame [Byte.x00]; ATick 2000; APause; AResume 3000]) = 0.
Proof.
  assert (Hr : reachable started).
  { unfold started. apply reach_step; [constructor | reflexivity]. }
  assert (Hn : status started <> Idle) by (vm_compute; discriminate).
  split; [exact Hr | split; [exact Hn |]].
  apply (level_zero_after_stop started); [exact Hr | exact Hn |].
  repeat constructor.
Defined.

End RecorderProofs.

Module GatewayProofs.
Import Gateway.

(** C2: with no desktop bridge ([isTauri] false), every exported
    command helper rejects with the stub's [TransportUnavailable] error,
    whatever the cache and the backend, and performs no effect: neither
    the import of the Tauri core nor a remote call. *)
Theorem helpers_fail_without_bridge cached (be : backend) (h : helper) :
  run_helper false cached be h =
  (inr (TransportUnavailable not_available_msg), cached, []).
Proof. destruct h; reflexivity. Qed.

End GatewayProofs.

Module AppProofs.
Import App.

(** C3 (evaluated at the failing input): when the microphone is denied,
    [Recorder.startRecording] rejects and leaves the state unchanged, so
    status stays [idle] but no text reports the error; [App]'s
    [handleRecordStart], whose POST fails, shows the error text but
    leaves [isRecording] set. *)
Theorem start_failure_report :
  Recorder.handle (Recorder.AStart 0 (Recorder.AcqDenied "NotAllowedError") [Byte.x80])
                  Recorder.init =
    (Recorder.Thrown "NotAllowedError", Recorder.init, []) /\
  handleRecordStart "" None (toggleMock init) =
    AS "" "Failed to start recording." "" "" "" [] (Loading false false false)
       false true false false.
Proof. split; reflexivity. Qed.

(** C10: [toggleMock] clears status, transcript, response and selected
    preset, flips [mock], and leaves sessionId, isRecording, isPaused,
    loading and sidebarOpen unchanged. *)
Theorem toggleMock_frame s :
  status (toggleMock s) = "" /\ transcript (toggleMock s) = "" /\
  response (toggleMock s) = "" /\ selectedPreset (toggleMock s) = "" /\
  mock (toggleMock s) = negb (mock s) /\
  sessionId (toggleMock s) = sessionId s /\
  isRecording (toggleMock s) = isRecording s /\
  isPaused (toggleMock s) = isPaused s /\
  loading (toggleMock s) = loading s /\
  sidebarOpen (toggleMock s) = sidebarOpen s.
Proof. destruct s; simpl; repeat split. Qed.

End AppProofs.

Module DisplayProofs.
Import Lifecycle.

Lemma digit_code n : (n < 10)%N -> N_of_ascii (ascii_of_N (48 + n)) = (48 + n)%N.
Proof. intros H. apply N_ascii_embedding. lia. Qed.

Lemma parse_app acc s1 s2 :
  parse_dec_acc acc (s1 ++ s2) = parse_dec_acc (parse_dec_acc acc s1) s2.
Proof. revert acc. induction s1 as [|c s1 IH]; intros acc; simpl; auto. Qed.

Lemma all_digits_app s1 s2 : all_digits (s1 ++ s2) = all_digits s1 && all_digits s2.
Proof. induction s1 as [|c s1 IH]; simpl; auto. rewrite IH. apply andb_assoc. Qed.

Lemma digit_parse acc n : (n < 10)%N -> parse_dec_acc acc (digit n) = (10 * acc + n)%N.
Proof. intros H. unfold digit. cbn [parse_dec_acc]. rewrite digit_code by exact H. lia. Qed.

Lemma digit_all n : (n < 10)%N -> all_digits (digit n) = true.
Proof.
  intros H. unfold digit. cbn [all_digits]. rewrite digit_code by exact H.
  rewrite andb_true_r. apply andb_true_intro; split; apply N.leb_le; lia.
Qed.

Lemma dec_fuel_spec f n :
  (n < 10 ^ N.of_nat f)%N ->
  parse_dec (dec_fuel f n) = n /\ all_digits (dec_fuel f n) = true.
Proof.
  unfold parse_dec. revert n. induction f as [|f IH]; intros n Hn.
  - simpl in Hn. assert (n = 0%N) by lia. subst. simpl. auto.
  - simpl. destruct (n <? 10)%N eqn:E.
    + apply N.ltb_lt in E. rewrite digit_parse, digit_all by exact E. split; [lia | reflexivity].
    + apply N.ltb_ge in E.
      assert (Hq : (n / 10 < 10 ^ N.of_nat f)%N).
      { apply N.Div0.div_lt_upper_bound.
        rewrite Nat2N.inj_succ, N.pow_succ_r' in Hn. lia. }
      destruct (IH (n / 10)%N Hq) as [Hp Ha].
      assert (Hm : (n mod 10 < 10)%N) by (apply N.mod_lt; lia).
      rewrite parse_app, Hp, digit_parse by exact Hm.
      rewrite all_digits_app, Ha, digit_all by exact Hm.
      split; [| reflexivity].
      pose proof (N.Div0.div_mod n 10). lia.
Qed.

Lemma js_string_N_spec n :
  parse_dec (js_string_N n) = n /\ all_digits (js_string_N n) = true.
Proof.
  apply dec_fuel_spec.
  destruct (N.eq_dec n 0) as [->|Hn]; [simpl; lia |].
  rewrite Nat2N.inj_succ, N2Nat.id.
  destruct (N.log2_spec n) as [_ Hlt]; [lia |].
  eapply N.lt_le_trans; [exact Hlt |].
  apply N.pow_le_mono_l. lia.
Qed.

Lemma str_length_app s1 s2 :
  String.length (s1 ++ s2) = (String.length s1 + String.length s2)%nat.
Proof. induction s1 as [|c s1 IH]; simpl; auto. Qed.

Lemma dec_fuel_nonempty f n : (1 <= String.length (dec_fuel (S f) n))%nat.
Proof.
  simpl. destruct (n <? 10)%N; [simpl; lia |].
  rewrite str_length_app. unfold digit. simpl. lia.
Qed.

Lemma padStart2_spec s :
  (1 <= String.length s)%nat ->
  parse_dec (padStart2 s) = parse_dec s /\
  all_digits (padStart2 s) = all_digits s /\
  (2 <= String.length (padStart2 s))%nat.
Proof.
  intros H. unfold padStart2.
  destruct (String.length s) as [|[|k]] eqn:E; [lia | |].
  - simpl. rewrite E. auto.
  - rewrite E. auto with arith.
Qed.

Lemma seconds_field_len k :
  (k < 60)%nat -> String.length (padStart2 (js_string_N (N.of_nat k))) = 2%nat.
Proof.
  intros Hk. do 60 (destruct k as [|k]; [reflexivity |]). lia.
Qed.

(** X1 (tauri.js, mm:ss display): for a non-negative elapsed time, both fields of the display are decimal digit strings, the seconds field has exactly two digits below 60, the minutes field has at least two, and minutes*60 + seconds is the number of whole seconds elapsed. *)
Theorem elapsed_display_roundtrip elapsed :
  0 <= elapsed ->
  let '(mm, ss) := elapsed_display elapsed in
  all_digits mm = true /\ all_digits ss = true /\
  (2 <= String.length mm)%nat /\ String.length ss = 2%nat /\
  (parse_dec ss < 60)%N /\
  Z.of_N (parse_dec mm) * 60 + Z.of_N (parse_dec ss) = elapsed / 1000.
Proof.
  intros He. unfold elapsed_display.
  set (sec := elapsed / 1000).
  assert (Hs : 0 <= sec) by (apply Z.div_pos; lia).
  assert (Hm : 0 <= sec / 60) by (apply Z.div_pos; lia).
  assert (Hr : Z.rem sec 60 = sec mod 60) by (apply Z.rem_mod_nonneg; lia).
  assert (Hr60 : 0 <= sec mod 60 < 60) by (apply Z.mod_pos_bound; lia).
  unfold js_String.
  destruct ((sec / 60 <? 0)%Z) eqn:E1; [apply Z.ltb_lt in E1; lia |].
  destruct ((Z.rem sec 60 <? 0)%Z) eqn:E2; [apply Z.ltb_lt in E2; lia |].
  rewrite Hr.
  destruct (js_string_N_spec (Z.to_N (sec / 60))) as [Pm Am].
  destruct (js_string_N_spec (Z.to_N (sec mod 60))) as [Ps As].
  destruct (padStart2_spec (js_string_N (Z.to_N (sec / 60))) (dec_fuel_nonempty _ _))
    as [Pm' [Am' Lm]].
  destruct (padStart2_spec (js_string_N (Z.to_N (sec mod 60))) (dec_fuel_nonempty _ _))
    as [Ps' [As' _]].
  rewrite Pm', Am', Ps', As', Pm, Ps, Am, As.
  repeat split; auto.
  - rewrite <- (N2Nat.id (Z.to_N (sec mod 60))). apply seconds_field_len.
    lia.
  - lia.
  - rewrite !Z2N.id by lia. pose proof (Z.div_mod sec 60). lia.
Qed.

Lemma elapsed_display_roundtrip_witness :
  0 <= 65432 /\
  (let '(mm, ss) := elapsed_display 65432 in
   all_digits mm = true /\ all_digits ss = true /\
   (2 <= String.length mm)%nat /\ String.length ss = 2%nat /\
   (parse_dec ss < 60)%N /\
   Z.of_N (parse_dec mm) * 60 + Z.of_N (parse_dec ss) = 65432 / 1000).
Proof. split; [lia | apply (elapsed_display_roundtrip 65432); lia]. Defined.

End DisplayProofs.

Module RecorderExtras.
Import Audio Recorder Session Lifecycle RecorderProofs.

Lemma session_inv_step s a :
  Inv s -> SessionInv s -> enabled s a -> SessionInv (post s a).
Proof.
  destruct s as [sst el tm lv rf sp ms ac sn an mr ch].
  unfold Inv, SessionInv, enabled; simpl.
  destruct a as [now acq frame| |now|flush save|now|data|c];
    try destruct acq; try destruct mr as [[[] m]|];
    try destruct tm; try destruct rf;
    unfold_handlers;
    try destruct (0 <? List.length c)%nat;
    try destruct (0 <? List.length flush)%nat; simpl;
    intros HI HS Hen; destruct sst; simpl in *; try congruence;
    intuition (try discriminate; try congruence).
  all: match goal with H : exists _, _ |- _ => destruct H as [? H]; discriminate end.
Qed.

(** In every reachable state of the model, Idle means a zero timer
    display, zero level, no animation frame, no interval and no chunks;
    Recording and Paused mean the meter and the audio graph references are
    live.  The model takes a stop as one step: the states between
    [mr.stop()] and the end of [finalize]'s awaits are not among them. *)
Lemma reachable_session_inv s : reachable s -> SessionInv s.
Proof.
  induction 1 as [|s a Hr IH Hen].
  - unfold SessionInv; simpl; auto.
  - apply session_inv_step; [apply reachable_inv |..]; assumption.
Qed.

Lemma mime_step s a :
  (forall st m, mediaRecorderRef s = Some (MR st m) -> In m negotiated_mimes) ->
  forall st m, mediaRecorderRef (post s a) = Some (MR st m) -> In m negotiated_mimes.
Proof.
  destruct s as [sst el tm lv rf sp ms ac sn an mr ch]; simpl.
  intros H.
  destruct a as [now acq frame| |now|flush save|now|data|c];
    try destruct acq; try destruct mr as [[[] m0]|];
    try destruct tm; try destruct rf;
    unfold_handlers;
    try destruct (0 <? List.length c)%nat;
    try destruct (0 <? List.length flush)%nat; simpl;
    intros st m E; try (inversion E; subst);
    try (eapply H; reflexivity); try (eapply H; eassumption).
  all: unfold select_mime, negotiated_mimes;
    repeat match goal with |- context [if ?b then _ else _] => destruct b end;
    simpl; auto.
Qed.

(** X3 (tauri.js, setupAudio): the MIME type of any recorder reachable in a session is one of those the negotiation can pick: Opus WebM, MP4 or plain WebM. *)
Theorem recorder_mime_negotiated s st m :
  reachable s -> mediaRecorderRef s = Some (MR st m) -> In m negotiated_mimes.
Proof.
  intros Hr. revert st m. induction Hr as [|s a Hr IH Hen].
  - simpl. discriminate.
  - apply mime_step. exact IH.
Qed.

Lemma recorder_mime_negotiated_witness :
  reachable paused /\
  mediaRecorderRef paused = Some (MR RPaused "audio/webm;codecs=opus") /\
  In "audio/webm;codecs=opus" negotiated_mimes.
Proof.
  assert (Hr : reachable paused) by (unfold paused, started; apply reach_step; [apply reach_step; [constructor | reflexivity] | reflexivity]).
  assert (Hm : mediaRecorderRef paused = Some (MR RPaused "audio/webm;codecs=opus"))
    by reflexivity.
  split; [exact Hr | split; [exact Hm |]].
  apply (recorder_mime_negotiated paused RPaused _ Hr Hm).
Defined.

(** X4 (tauri.js, setupAudio and stopRecording): the file extension hint sent with the saved recording is webm when Opus WebM is supported, otherwise m4a when MP4 is supported, otherwise webm. *)
Theorem negotiated_ext_hint sup :
  ext_hint (effective_mime (select_mime sup)) =
  if sup "audio/webm;codecs=opus" then "webm"
  else if sup "audio/mp4" then "m4a" else "webm".
Proof.
  unfold select_mime.
  destruct (sup "audio/webm;codecs=opus"); [reflexivity |].
  destruct (sup "audio/mp4"); reflexivity.
Qed.

(** X5 (tauri.js, startRecording): starting from a reachable Idle state with microphone access granted puts the session in Recording with no chunks, a recording MediaRecorder of the negotiated type, the level of the first meter frame, and a timer that shows the time since the start. *)
Theorem start_from_idle s now sup frame :
  reachable s -> status s = Idle ->
  let s' := post s (AStart now (AcqOk sup) frame) in
  status s' = Recording /\ chunksRef s' = [] /\
  mediaRecorderRef s' = Some (MR RRecording (select_mime sup)) /\
  level s' = level_of frame /\
  (forall t, elapsed (post s' (ATick t)) = t - now).
Proof.
  intros Hr Hi. pose proof (reachable_session_inv s Hr) as HS.
  unfold SessionInv in HS. rewrite Hi in HS. destruct HS as (He & _).
  destruct s as [sst el tm lv rf sp ms ac sn an mr ch]; simpl in *; subst.
  unfold_handlers. repeat split. intros t. lia.
Qed.

Lemma start_from_idle_witness :
  reachable init /\ status init = Idle /\
  (let s' := post init (AStart 500 (AcqOk (fun m => String.eqb m "audio/mp4")) [Byte.x00]) in
   status s' = Recording /\ chunksRef s' = [] /\
   mediaRecorderRef s' =
     Some (MR RRecording (select_mime (fun m => String.eqb m "audio/mp4"))) /\
   level s' = level_of [Byte.x00] /\
   (forall t, elapsed (post s' (ATick t)) = t - 500)).
Proof.
  split; [constructor | split; [reflexivity |]].
  apply (start_from_idle init 500 _ [Byte.x00]); [constructor | reflexivity].
Defined.

(** X6 (tauri.js, startRecording): a denied microphone request rethrows its error and changes nothing; when the MediaRecorder constructor throws from Idle, the error is rethrown with the status still Idle, while the stream, audio context and nodes stay allocated. *)
Theorem start_failures s now e frame :
  handle (AStart now (AcqDenied e) frame) s = (Thrown e, s, []) /\
  (status s = Idle ->
   exists s', handle (AStart now (AcqRecorderFails e) frame) s = (Thrown e, s', []) /\
   status s' = Idle /\ mediaRecorderRef s' = mediaRecorderRef s /\
   mediaStreamRef s' = true /\ audioCtxRef s' = true /\
   sourceNodeRef s' = true /\ analyserRef s' = true /\
   timerRef s' = timerRef s /\ rafRef s' = rafRef s).
Proof.
  destruct s as [sst el tm lv rf sp ms ac sn an mr ch]; simpl.
  split; [reflexivity |]. intros ->.
  eexists. split; [reflexivity |]. simpl. auto 10.
Qed.

Lemma start_failures_witness :
  status init = Idle /\
  exists s', handle (AStart 0 (AcqRecorderFails "NotSupportedError") []) init =
             (Thrown "NotSupportedError", s', []) /\ mediaStreamRef s' = true.
Proof.
  split; [reflexivity |].
  destruct (proj2 (start_failures init 0 "NotSupportedError" []) eq_refl)
    as (s' & H1 & _ & _ & H2 & _).
  exists s'. split; assumption.
Defined.

(** X7 (tauri.js, useEffect cleanup): unmounting never throws and emits nothing; it clears the interval, the animation frame and the level, and drops the audio graph references, leaving status, recorder and chunks as they were; a second unmount changes nothing. *)
Theorem unmount_releases s :
  let '(r, u, w) := unmount s in
  r = Done tt /\ w = [] /\
  timerRef u = None /\ rafRef u = false /\ level u = 0 /\
  mediaStreamRef u = false /\ audioCtxRef u = false /\
  sourceNodeRef u = false /\ analyserRef u = false /\
  status u = status s /\ mediaRecorderRef u = mediaRecorderRef s /\
  chunksRef u = chunksRef s /\ unmounted u = u.
Proof. destruct s; simpl. repeat split. Qed.

Lemma data_while_recording s m c :
  mediaRecorderRef s = Some (MR RRecording m) ->
  mediaRecorderRef (post s (AData c)) = Some (MR RRecording m) /\
  status (post s (AData c)) = status s /\
  chunksRef (post s (AData c)) =
    app (chunksRef s) (if (0 <? List.length c)%nat then [c] else []).
Proof.
  destruct s as [sst el tm lv rf sp ms ac sn an mr ch]; simpl; intros ->.
  unfold_handlers. destruct (0 <? List.length c)%nat; simpl; rewrite ?app_nil_r; auto.
Qed.

(** X9 (tauri.js, ondataavailable): while recording, any sequence of timeslice deliveries keeps the session Recording and appends exactly the non-empty blobs, in order, to the chunk list. *)
Theorem timeslices_accumulate s cs :
  reachable s -> status s = Recording ->
  status (run s (map AData cs)) = Recording /\
  chunksRef (run s (map AData cs)) =
    app (chunksRef s) (filter (fun c => (0 <? List.length c)%nat) cs).
Proof.
  intros Hr Hrec. pose proof (reachable_inv s Hr) as HI. unfold Inv in HI.
  rewrite Hrec in HI. destruct HI as [m Hm].
  unfold run. clear Hr. revert s Hrec Hm.
  induction cs as [|c cs IH]; intros s Hrec Hm; simpl.
  - rewrite app_nil_r. auto.
  - destruct (data_while_recording s m c Hm) as (Hm' & Hst & Hch).
    destruct (IH (post s (AData c))) as [IH1 IH2]; [congruence | exact Hm' |].
    split; [exact IH1 |]. rewrite IH2, Hch.
    destruct (0 <? List.length c)%nat; simpl; rewrite <- ?app_assoc; reflexivity.
Qed.

Lemma timeslices_accumulate_witness :
  reachable started /\ status started = Recording /\
  status (run started (map AData [[Byte.x01]; []; [Byte.x02]])) = Recording /\
  chunksRef (run started (map AData [[Byte.x01]; []; [Byte.x02]])) =
    app (chunksRef started)
        (filter (fun c => (0 <? List.length c)%nat) [[Byte.x01]; []; [Byte.x02]]).
Proof.
  assert (Hr : reachable started) by (unfold started; apply reach_step; [constructor | reflexivity]).
  assert (Hs : status started = Recording) by reflexivity.
  split; [exact Hr | split; [exact Hs |]].
  apply (timeslices_accumulate started _ Hr Hs).
Defined.

(** X10 (tauri.js, startMeter and pauseRecording): while paused, the level meter keeps updating from new frames, and the elapsed time does not change. *)
Theorem meter_runs_while_paused s data :
  reachable s -> status s = Paused ->
  level (post s (AFrame data)) = level_of data /\
  elapsed (post s (AFrame data)) = elapsed s.
Proof.
  intros Hr Hp. pose proof (reachable_session_inv s Hr) as HS.
  unfold SessionInv in HS. rewrite Hp in HS. destruct HS as (Hraf & _).
  destruct s as [sst el tm lv rf sp ms ac sn an mr ch]; simpl in *; subst.
  unfold_handlers. auto.
Qed.

Lemma meter_runs_while_paused_witness :
  reachable paused /\ status paused = Paused /\
  level (post paused (AFrame [Byte.x00])) = level_of [Byte.x00] /\
  elapsed (post paused (AFrame [Byte.x00])) = elapsed paused.
Proof.
  assert (Hr : reachable paused) by (unfold paused, started; apply reach_step; [apply reach_step; [constructor | reflexivity] | reflexivity]).
  assert (Hp : status paused = Paused) by reflexivity.
  split; [exact Hr | split; [exact Hp |]].
  apply (meter_runs_while_paused paused _ Hr Hp).
Defined.

End RecorderExtras.
Module LevelExtras.
Import Audio.

Lemma byte_Z_range b : 0 <= byte_Z b <= 255.
Proof. unfold byte_Z. pose proof (Byte.to_N_bounded b). lia. Qed.

Lemma byte_Z_inj_128 b : byte_Z b = 128 -> b = Byte.x80.
Proof.
  unfold byte_Z. intros H. assert (Hn : Byte.to_N b = 128%N) by lia.
  pose proof (Byte.of_to_N b) as E. rewrite Hn in E. simpl in E. congruence.
Qed.

Lemma byte_Z_inj_0 b : byte_Z b = 0 -> b = Byte.x00.
Proof.
  unfold byte_Z. intros H. assert (Hn : Byte.to_N b = 0%N) by lia.
  pose proof (Byte.of_to_N b) as E. rewrite Hn in E. simpl in E. congruence.
Qed.

Lemma peak_from_ge data p : p <= peak_from data p.
Proof.
  revert p. induction data as [|d ds IH]; intros p; simpl; [lia |].
  specialize (IH (if Z.abs (byte_Z d - 128) >? p then Z.abs (byte_Z d - 128) else p)).
  destruct (Z.abs (byte_Z d - 128) >? p) eqn:E; [apply Z.gtb_lt in E|]; lia.
Qed.

Lemma peak_from_upper data p :
  forall b, In b data -> Z.abs (byte_Z b - 128) <= peak_from data p.
Proof.
  revert p. induction data as [|d ds IH]; intros p b Hb; simpl in *; [contradiction |].
  destruct Hb as [->|Hb]; [| apply IH; exact Hb].
  eapply Z.le_trans; [| apply peak_from_ge].
  destruct (Z.abs (byte_Z b - 128) >? p) eqn:E; [lia |].
  rewrite Z.gtb_ltb in E. apply Z.ltb_ge in E. lia.
Qed.

Lemma peak_from_attained data p :
  peak_from data p = p \/
  exists b, In b data /\ peak_from data p = Z.abs (byte_Z b - 128).
Proof.
  revert p. induction data as [|d ds IH]; intros p; simpl; [auto |].
  destruct (IH (if Z.abs (byte_Z d - 128) >? p then Z.abs (byte_Z d - 128) else p))
    as [E|[b [Hb E]]].
  - rewrite E. destruct (Z.abs (byte_Z d - 128) >? p); [right; exists d; auto | auto].
  - right. exists b. auto.
Qed.

Lemma peak_range data : 0 <= peak_from data 0 <= 128.
Proof.
  split; [apply peak_from_ge |].
  destruct (peak_from_attained data 0) as [E|[b [_ E]]]; rewrite E; [lia |].
  pose proof (byte_Z_range b). lia.
Qed.

(** X11 (tauri.js, startMeter): the level is 0 exactly when every byte of the frame is the midpoint 128. *)
Theorem level_zero_iff_silent data :
  level_of data = 0 <-> Forall (fun b => b = Byte.x80) data.
Proof.
  unfold level_of, js_round_peak.
  pose proof (peak_range data) as [H0 H1].
  split.
  - intros Hl. assert (Hp : peak_from data 0 = 0).
    { assert (Hd : (25 * peak_from data 0 + 16) / 32 = 0) by lia.
      rewrite Z.div_small_iff in Hd by lia. lia. }
    apply Forall_forall. intros b Hb.
    pose proof (peak_from_upper data 0 b Hb). apply byte_Z_inj_128. lia.
  - intros Hall. rewrite Forall_forall in Hall.
    destruct (peak_from_attained data 0) as [E|[b [Hb E]]].
    + rewrite E. reflexivity.
    + rewrite (Hall b Hb) in E. rewrite E. reflexivity.
Qed.

(** X12 (tauri.js, startMeter): the level is 100 exactly when the frame contains a byte 0; a byte 255 alone only reaches 99. *)
Theorem level_full_iff_zero_byte data :
  level_of data = 100 <-> In Byte.x00 data.
Proof.
  unfold level_of, js_round_peak.
  pose proof (peak_range data) as [H0 H1].
  split.
  - intros Hl.
    assert (Hp : peak_from data 0 = 128).
    { destruct (Z.le_gt_cases 128 (peak_from data 0)) as [Hle|Hgt]; [lia |].
      assert (Hd : (25 * peak_from data 0 + 16) / 32 < 100).
      { apply Z.div_lt_upper_bound; lia. }
      lia. }
    destruct (peak_from_attained data 0) as [E|[b [Hb E]]]; [lia |].
    pose proof (byte_Z_range b).
    assert (Hb0 : b = Byte.x00) by (apply byte_Z_inj_0; lia).
    subst. exact Hb.
  - intros Hin. pose proof (peak_from_upper data 0 _ Hin) as Hu.
    replace (byte_Z Byte.x00) with 0 in Hu by reflexivity.
    replace (peak_from data 0) with 128 by lia. reflexivity.
Qed.

End LevelExtras.

Module GatewayExtras.
Import Gateway Lifecycle.

Lemma run_helper_core be h :
  exists r, run_helper true (Some InvokeCore) be h =
            (r, Some InvokeCore, [Remote (fst (helper_command h)) (snd (helper_command h))]).
Proof. destruct h; eexists; reflexivity. Qed.

Lemma run_helper_first be h :
  exists r, run_helper true None be h =
            (r, Some InvokeCore,
             [ImportCore; Remote (fst (helper_command h)) (snd (helper_command h))]).
Proof. destruct h; eexists; reflexivity. Qed.

Lemma run_helpers_cached be hs :
  let '(_, c, effs) := run_helpers true (Some InvokeCore) be hs in
  c = Some InvokeCore /\ count_imports effs = 0%nat /\
  remote_calls effs = map helper_command hs.
Proof.
  induction hs as [|h hs IH]; cbn [run_helpers]; [auto |].
  destruct (run_helper_core be h) as [r ->].
  destruct (run_helpers true (Some InvokeCore) be hs) as [[rs c] effs].
  destruct IH as (Hc & Hi & Hr).
  unfold count_imports, remote_calls in *. simpl.
  rewrite Hi, Hr. destruct (helper_command h). auto.
Qed.

(** X14 (tauri.js, getInvoke): on the desktop, any non-empty sequence of helper calls loads the core module exactly once, caches the core invoker, and issues the helpers' commands in order. *)
Theorem desktop_imports_once be hs :
  hs <> [] ->
  let '(_, c, effs) := run_helpers true None be hs in
  c = Some InvokeCore /\ count_imports effs = 1%nat /\
  remote_calls effs = map helper_command hs.
Proof.
  destruct hs as [|h hs]; [congruence | intros _]. cbn [run_helpers].
  destruct (run_helper_first be h) as [r ->].
  pose proof (run_helpers_cached be hs) as IH.
  destruct (run_helpers true (Some InvokeCore) be hs) as [[rs c] effs].
  destruct IH as (Hc & Hi & Hr).
  unfold count_imports, remote_calls in *. simpl.
  rewrite Hi, Hr. destruct (helper_command h). auto.
Qed.

Lemma desktop_imports_once_witness :
  [readApiKey; saveApiKey "k"; readApiKey] <> [] /\
  (let '(_, c, effs) := run_helpers true None (fun _ _ => inl "ok")
                          [readApiKey; saveApiKey "k"; readApiKey] in
   c = Some InvokeCore /\ count_imports effs = 1%nat /\
   remote_calls effs = map helper_command [readApiKey; saveApiKey "k"; readApiKey]).
Proof.
  assert (H : [readApiKey; saveApiKey "k"; readApiKey] <> []) by discriminate.
  split; [exact H | apply (desktop_imports_once (fun _ _ => inl "ok") _ H)].
Defined.

End GatewayExtras.

Module AppExtras.
Import App AppHandlers.

(** X15 (App.jsx, handleRecordStop): with the mock off, a failed stop request reports the failure, clears the recording flags, keeps the transcript and resets only the recording loading flag. *)
Theorem stop_request_failure s tr :
  mock s = false ->
  let s' := handleRecordStop None tr s in
  status s' = "Failed to stop recording." /\
  isRecording s' = false /\ isPaused s' = false /\
  transcript s' = transcript s /\
  loading s' = Loading false (transcribing (loading s)) (sending (loading s)).
Proof. intros Hm. destruct s; simpl in *; subst; repeat split. Qed.

(** X16 (App.jsx, handleRecordStop and handleTranscribe): in mock mode, stopping clears the recording flags and always ends with the mock transcript and its status. *)
Theorem stop_mock_transcribes s r tr :
  mock s = true ->
  let s' := handleRecordStop r tr s in
  status s' = "Transcription complete (mock)." /\
  transcript s' = "This is a mock transcript." /\
  isRecording s' = false /\ isPaused s' = false /\
  loading s' = Loading false false (sending (loading s)).
Proof. intros Hm. destruct s; simpl in *; subst; repeat split. Qed.

(** X17 (App.jsx, handleRecordStop and handleTranscribe): with the mock off and a successful stop, the saved-path status is replaced by the transcription's status, and the transcript is replaced only when the transcription succeeds. *)
Theorem stop_backend_status_overwritten s pathWav tr :
  mock s = false ->
  let s' := handleRecordStop (Some pathWav) tr s in
  status s' = (match tr with Some _ => "Transcription complete."
                            | None => "Failed to transcribe." end) /\
  transcript s' = (match tr with Some t => t | None => transcript s end) /\
  isRecording s' = false /\ isPaused s' = false /\
  loading s' = Loading false false (sending (loading s)).
Proof. intros Hm. destruct s; simpl in *; subst; destruct tr; repeat split. Qed.

(** X18 (App.jsx, handleTranscribe and handleSend): with the mock off, a failed request keeps the previous transcript or response and reports the failure. *)
Theorem failed_requests_keep_text s :
  mock s = false ->
  transcript (handleTranscribe None s) = transcript s /\
  status (handleTranscribe None s) = "Failed to transcribe." /\
  response (handleSend None s) = response s /\
  status (handleSend None s) = "Failed to query the API.".
Proof. intros Hm. destruct s; simpl in *; subst; repeat split. Qed.

(** X19 (App.jsx, handleRecordStart, handleTranscribe and handleSend): whatever the mode and the backend's reply, each handler ends with its own loading flag false and leaves the other two as they were. *)
Theorem loading_flags_restored s id rs rt rq :
  loading (handleRecordStart id rs s) =
    Loading false (transcribing (loading s)) (sending (loading s)) /\
  loading (handleTranscribe rt s) =
    Loading (recording (loading s)) false (sending (loading s)) /\
  loading (handleSend rq s) =
    Loading (recording (loading s)) (transcribing (loading s)) false.
Proof.
  destruct s as [sid st tr rp sel ps [lr lt ls] mk rec pau sb]; simpl.
  destruct mk, rs, rt, rq; repeat split.
Qed.

Lemma failed_requests_keep_text_witness :
  mock (toggleMock init) = false /\
  transcript (handleTranscribe None (toggleMock init)) = transcript (toggleMock init) /\
  status (handleTranscribe None (toggleMock init)) = "Failed to transcribe." /\
  response (handleSend None (toggleMock init)) = response (toggleMock init) /\
  status (handleSend None (toggleMock init)) = "Failed to query the API.".
Proof.
  assert (Hm : mock (toggleMock init) = false) by reflexivity.
  split; [exact Hm | apply (failed_requests_keep_text (toggleMock init) Hm)].
Defined.

Lemma stop_backend_status_overwritten_witness :
  mock (toggleMock init) = false /\
  (let s' := handleRecordStop (Some "/tmp/a.wav") (Some "hello") (toggleMock init) in
   status s' = "Transcription complete." /\
   transcript s' = "hello" /\
   isRecording s' = false /\ isPaused s' = false /\
   loading s' = Loading false false (sending (loading (toggleMock init)))).
Proof.
  assert (Hm : mock (toggleMock init) = false) by reflexivity.
  split; [exact Hm |].
  apply (stop_backend_status_overwritten (toggleMock init) "/tmp/a.wav" (Some "hello") Hm).
Defined.

Lemma stop_mock_transcribes_witness :
  mock init = true /\
  (let s' := handleRecordStop None (Some "ignored") init in
   status s' = "Transcription complete (mock)." /\
   transcript s' = "This is a mock transcript." /\
   isRecording s' = false /\ isPaused s' = false /\
   loading s' = Loading false false (sending (loading init))).
Proof.
  assert (Hm : mock init = true) by reflexivity.
  split; [exact Hm | apply (stop_mock_transcribes init None (Some "ignored") Hm)].
Defined.

Lemma stop_request_failure_witness :
  mock (toggleMock init) = false /\
  (let s' := handleRecordStop None None (toggleMock init) in
   status s' = "Failed to stop recording." /\
   isRecording s' = false /\ isPaused s' = false /\
   transcript s' = transcript (toggleMock init) /\
   loading s' = Loading false (transcribing (loading (toggleMock init)))
                             (sending (loading (toggleMock init)))).
Proof.
  assert (Hm : mock (toggleMock init) = false) by reflexivity.
  split; [exact Hm | apply (stop_request_failure (toggleMock init) None Hm)].
Defined.

(** X20 (App.jsx, handlePauseResume): pressing pause/resume twice restores isPaused and changes nothing but the status message. *)
Theorem pause_resume_twice s :
  let s2 := handlePauseResume (handlePauseResume s) in
  isPaused s2 = isPaused s /\
  status s2 = (if isPaused s then "Pausing..." else "Resuming...") /\
  s2 = AS (sessionId s) (status s2) (transcript s) (response s) (selectedPreset s)
          (presets s) (loading s) (mock s) (isRecording s) (isPaused s) (sidebarOpen s).
Proof. destruct s as [? ? ? ? ? ? ? ? ? [] ?]; simpl; repeat split. Qed.

(** X21 (App.jsx, toggleMock and the presets effect): nothing cancels a
    [/presets] request.  Switching the mock off starts one; if the mock
    is switched back on before it settles, the effect sets the built-in
    list, and the late reply then replaces it (with the backend's list, or
    [] on failure) while the mock stays on. *)
Theorem stale_presets_fetch s reply :
  mock s = true ->
  let '(s1, pending1) := presetsEffect (toggleMock s) in
  let '(s2, pending2) := presetsEffect (toggleMock s1) in
  let s3 := presetsSettle reply s2 in
  pending1 = true /\ pending2 = false /\
  mock s2 = true /\ presets s2 = presetsMock /\
  mock s3 = true /\
  presets s3 = match reply with Some data => data | None => [] end.
Proof. intros Hm. destruct s; simpl in *; subst; repeat split. Qed.

Lemma stale_presets_fetch_witness :
  mock init = true /\
  (let '(s1, pending1) := presetsEffect (toggleMock init) in
   let '(s2, pending2) := presetsEffect (toggleMock s1) in
   let s3 := presetsSettle None s2 in
   pending1 = true /\ pending2 = false /\
   mock s2 = true /\ presets s2 = presetsMock /\
   mock s3 = true /\ presets s3 = []).
Proof.
  assert (Hm : mock init = true) by reflexivity.
  split; [exact Hm | apply (stale_presets_fetch init None Hm)].
Defined.

(** X22 (App.jsx, handleRecordStart): whatever the mode and the reply, starting sets isRecording, clears isPaused, and leaves the transcript, response, preset selection, presets, mode and sidebar unchanged. *)
Theorem start_frame s id reply :
  let s' := handleRecordStart id reply s in
  isRecording s' = true /\ isPaused s' = false /\
  transcript s' = transcript s /\ response s' = response s /\
  selectedPreset s' = selectedPreset s /\ presets s' = presets s /\
  mock s' = mock s /\ sidebarOpen s' = sidebarOpen s.
Proof. destruct s as [? ? ? ? ? ? ? [] ? ? ?]; destruct reply; repeat split. Qed.

End AppExtras.
